(** * The listing lifecycle of the marketplace backend

    A shallow embedding of [backend/listings/models.py] (the [Listing] status
    machine, its validation and its lifecycle timestamps, and the
    [ListingImage] primary-image constraint) and of the write paths of
    [backend/listings/views.py], followed by the properties of the
    specification that concern them.

    Python objects are records, the database is a record of finite maps,
    and a method that mutates [self] or writes a table is a computation in
    a state-and-exception monad over the pair (instance, database). *)

From Stdlib Require Import ZArith String List Bool Lia.
From stdpp Require Import base option gmap strings list fin_maps.

Local Open Scope string_scope.
Local Open Scope list_scope.
Local Open Scope Z_scope.

(** ** Python values *)

(** [datetime] objects (always truthy in Python): microseconds since the
    epoch. *)
Definition datetime : Type := Z.

(** Truthiness of a string: the empty string is falsy. *)
Definition truthy_str (s : string) : bool :=
  match s with EmptyString => false | String _ _ => true end.

(** [d.get(k, default)] on a dict written as an association list. *)
Fixpoint dict_get {K V : Type} `{EqDecision K}
    (d : list (K * V)) (k : K) (default : V) : V :=
  match d with
  | [] => default
  | (k', v) :: d' => if decide (k' = k) then v else dict_get d' k default
  end.

(** ** Exceptions and the monad of a model method *)

Inductive message :=
| Text (s : string)           (* a message written in this repository *)
| Code (c : string)           (* a field error of the framework, by its code *)
| Violated (name : string).   (* a model constraint reported as violated *)

Inductive exn :=
| ValidationError (error_dict : list (string * message))
| DoesNotExist (model : string)
| IntegrityError (constraint : string)
| PermissionDenied (detail : string)
| Http404.

#[global] Instance message_eq_dec : EqDecision message.
Proof. solve_decision. Defined.

#[global] Instance exn_eq_dec : EqDecision exn.
Proof. solve_decision. Defined.

(** A computation over a state [S]: an exception or a value, and the state
    it leaves. An exception does not roll the state back. *)
Definition M (S A : Type) : Type := S -> (exn + A) * S.

Definition ret {S A} (a : A) : M S A := fun s => (inr a, s).

Definition bind {S A B} (m : M S A) (k : A -> M S B) : M S B :=
  fun s => match m s with
           | (inl e, s') => (inl e, s')
           | (inr a, s') => k a s'
           end.

Definition raise {S A} (e : exn) : M S A := fun s => (inl e, s).
Definition get {S} : M S S := fun s => (inr s, s).
Definition put {S} (s : S) : M S unit := fun _ => (inr tt, s).

(** [if c: raise e] *)
Definition raise_if {S} (c : bool) (e : exn) : M S unit :=
  if c then raise e else ret tt.

#[global] Instance M_ret {S} : MRet (M S) := fun A a => ret a.
#[global] Instance M_bind {S} : MBind (M S) := fun A B k m => bind m k.

(** [try: m  except ValidationError as e: errors = e.update_error_dict(errors)]:
    the errors of [m] are appended to the dict, any other exception
    propagates. *)
Definition collect {S} (m : M S unit) (errors : list (string * message))
    : M S (list (string * message)) :=
  fun s => match m s with
           | (inl (ValidationError d), s') => (inr (errors ++ d), s')
           | (inl e, s') => (inl e, s')
           | (inr _, s') => (inr errors, s')
           end.

(** ** Enumerations of [listings/models.py] *)

Inductive ListingCurrency := NAD | ZAR.

Inductive ListingStatus := DRAFT | ACTIVE | SOLD | ARCHIVED.

#[global] Instance ListingCurrency_eq_dec : EqDecision ListingCurrency.
Proof. solve_decision. Defined.

#[global] Instance ListingStatus_eq_dec : EqDecision ListingStatus.
Proof. solve_decision. Defined.

(** The stored value of a status ([TextChoices]). *)
Definition value (s : ListingStatus) : string :=
  match s with
  | DRAFT => "draft"
  | ACTIVE => "active"
  | SOLD => "sold"
  | ARCHIVED => "archived"
  end.

(** Truthiness of the result of the status lookup: [None] is falsy, a status
    is truthy when its value is a non-empty string. *)
Definition truthy_status (o : option ListingStatus) : bool :=
  match o with Some s => truthy_str (value s) | None => false end.

Definition STATUS_TRANSITIONS : list (ListingStatus * list ListingStatus) :=
  [ (DRAFT, [ACTIVE; ARCHIVED]);
    (ACTIVE, [SOLD; ARCHIVED]);
    (SOLD, [ARCHIVED]);
    (ARCHIVED, []) ].

(** [x in s] for a set written as a list. *)
Definition py_in (x : ListingStatus) (s : list ListingStatus) : bool :=
  bool_decide (x ∈ s).


(** ** The models

    Primary keys are handed out by the database sequence and are positive,
    so an optional key is truthy exactly when it is not [None]; a key test
    such as [if self.pk] is written as a match on the option. *)

(** [locations/models.py], class [City]. *)
Module City.
Record t := { region_id : positive; name : string }.
End City.

(** [listings/models.py], class [Listing]. A [DecimalField] with
    [decimal_places=2] holds hundredths. *)
Record Listing := {
  pk : option positive;
  owner_id : option positive;
  title : string;
  description : string;
  category_id : option positive;
  region_id : option positive;
  city_id : option positive;
  price_amount : option Z;
  currency : ListingCurrency;
  is_negotiable : bool;
  status : ListingStatus;
  created_at : option datetime;
  updated_at : option datetime;
  published_at : option datetime;
  sold_at : option datetime;
  archived_at : option datetime }.

(** [listings/models.py], class [ListingImage]. *)
Module ListingImage.
Record t := {
  pk : option positive;
  listing_id : positive;
  image : string;
  sort_order : N;
  is_primary : bool;
  created_at : option datetime }.
End ListingImage.

(** The tables. Users, categories and regions only matter through the
    existence of their rows. *)
Record DB := {
  users : gset positive;
  categories : gset positive;
  regions : gset positive;
  cities : gmap positive City.t;
  listings : gmap positive Listing;
  images : gmap positive ListingImage.t }.

(** A model method runs on an instance and the database. *)
Record world (T : Type) := World { self : T; db : DB }.
Arguments World {T} _ _.
Arguments self {T} _.
Arguments db {T} _.

(** [Listing(status=s)]: every other field at its default. *)
Definition new_Listing (s : ListingStatus) : Listing :=
  {| pk := None; owner_id := None; title := EmptyString;
     description := EmptyString; category_id := None; region_id := None;
     city_id := None; price_amount := None; currency := NAD;
     is_negotiable := false; status := s; created_at := None;
     updated_at := None; published_at := None; sold_at := None;
     archived_at := None |}.

(** Attribute assignments on a [Listing]. *)
Definition set_pk (v : option positive) (l : Listing) : Listing :=
  {| pk := v; owner_id := owner_id l; title := title l;
     description := description l; category_id := category_id l;
     region_id := region_id l; city_id := city_id l;
     price_amount := price_amount l; currency := currency l;
     is_negotiable := is_negotiable l; status := status l;
     created_at := created_at l; updated_at := updated_at l;
     published_at := published_at l; sold_at := sold_at l;
     archived_at := archived_at l |}.

Definition set_created_at (v : option datetime) (l : Listing) : Listing :=
  {| pk := pk l; owner_id := owner_id l; title := title l;
     description := description l; category_id := category_id l;
     region_id := region_id l; city_id := city_id l;
     price_amount := price_amount l; currency := currency l;
     is_negotiable := is_negotiable l; status := status l;
     created_at := v; updated_at := updated_at l;
     published_at := published_at l; sold_at := sold_at l;
     archived_at := archived_at l |}.

Definition set_updated_at (v : option datetime) (l : Listing) : Listing :=
  {| pk := pk l; owner_id := owner_id l; title := title l;
     description := description l; category_id := category_id l;
     region_id := region_id l; city_id := city_id l;
     price_amount := price_amount l; currency := currency l;
     is_negotiable := is_negotiable l; status := status l;
     created_at := created_at l; updated_at := v;
     published_at := published_at l; sold_at := sold_at l;
     archived_at := archived_at l |}.

Definition set_published_at (v : option datetime) (l : Listing) : Listing :=
  {| pk := pk l; owner_id := owner_id l; title := title l;
     description := description l; category_id := category_id l;
     region_id := region_id l; city_id := city_id l;
     price_amount := price_amount l; currency := currency l;
     is_negotiable := is_negotiable l; status := status l;
     created_at := created_at l; updated_at := updated_at l;
     published_at := v; sold_at := sold_at l;
     archived_at := archived_at l |}.

Definition set_sold_at (v : option datetime) (l : Listing) : Listing :=
  {| pk := pk l; owner_id := owner_id l; title := title l;
     description := description l; category_id := category_id l;
     region_id := region_id l; city_id := city_id l;
     price_amount := price_amount l; currency := currency l;
     is_negotiable := is_negotiable l; status := status l;
     created_at := created_at l; updated_at := updated_at l;
     published_at := published_at l; sold_at := v;
     archived_at := archived_at l |}.

Definition set_archived_at (v : option datetime) (l : Listing) : Listing :=
  {| pk := pk l; owner_id := owner_id l; title := title l;
     description := description l; category_id := category_id l;
     region_id := region_id l; city_id := city_id l;
     price_amount := price_amount l; currency := currency l;
     is_negotiable := is_negotiable l; status := status l;
     created_at := created_at l; updated_at := updated_at l;
     published_at := published_at l; sold_at := sold_at l;
     archived_at := v |}.

Definition set_status (v : ListingStatus) (l : Listing) : Listing :=
  {| pk := pk l; owner_id := owner_id l; title := title l;
     description := description l; category_id := category_id l;
     region_id := region_id l; city_id := city_id l;
     price_amount := price_amount l; currency := currency l;
     is_negotiable := is_negotiable l; status := v;
     created_at := created_at l; updated_at := updated_at l;
     published_at := published_at l; sold_at := sold_at l;
     archived_at := archived_at l |}.

Definition set_price_amount (v : option Z) (l : Listing) : Listing :=
  {| pk := pk l; owner_id := owner_id l; title := title l;
     description := description l; category_id := category_id l;
     region_id := region_id l; city_id := city_id l;
     price_amount := v; currency := currency l;
     is_negotiable := is_negotiable l; status := status l;
     created_at := created_at l; updated_at := updated_at l;
     published_at := published_at l; sold_at := sold_at l;
     archived_at := archived_at l |}.

Definition set_city_id (v : option positive) (l : Listing) : Listing :=
  {| pk := pk l; owner_id := owner_id l; title := title l;
     description := description l; category_id := category_id l;
     region_id := region_id l; city_id := v;
     price_amount := price_amount l; currency := currency l;
     is_negotiable := is_negotiable l; status := status l;
     created_at := created_at l; updated_at := updated_at l;
     published_at := published_at l; sold_at := sold_at l;
     archived_at := archived_at l |}.

(** [self.attr = f(self)] inside a method. *)
Definition assign {T} (f : T -> T) : M (world T) unit :=
  fun w => (inr tt, World (f (self w)) (db w)).

(** [x or y] on an optional [datetime]. *)
Definition py_or (x : option datetime) (y : datetime) : option datetime :=
  match x with Some v => Some v | None => Some y end.

Definition set_listings (t : gmap positive Listing) (d : DB) : DB :=
  {| users := users d; categories := categories d; regions := regions d;
     cities := cities d; listings := t; images := images d |}.

Definition set_images (t : gmap positive ListingImage.t) (d : DB) : DB :=
  {| users := users d; categories := categories d; regions := regions d;
     cities := cities d; listings := listings d; images := t |}.

(** ** [listings/models.py]: the methods of [Listing] *)

(** The classified errors of the specification, as the code reports them:
    an entry (field, message) of the error dict of a [ValidationError]. *)
Definition InvalidTransition : string * message :=
  ("status", Text "Invalid status transition.").
Definition ReferentialMismatch : string * message :=
  ("city", Text "City must belong to the selected region.").
Definition PriceRequired : string * message :=
  ("price_amount", Text "Price is required for active or sold listings.").
Definition NegativePrice : string * message :=
  ("__all__", Violated "listing_price_non_negative").

(** [self.city]: the related row is fetched by its key and is missing with
    [City.DoesNotExist]. *)
Definition related_city (c : positive) : M (world Listing) City.t :=
  w ← get;
  match cities (db w) !! c with
  | Some city => mret city
  | None => raise (DoesNotExist "City")
  end.

Definition clean : M (world Listing) unit :=
  w ← get;
  match city_id (self w), region_id (self w) with
  | Some c, Some r =>
      city ← related_city c;
      raise_if (negb (bool_decide (City.region_id city = r)))
               (ValidationError [ReferentialMismatch])
  | _, _ => mret tt
  end;;
  raise_if (py_in (status (self w)) [ACTIVE; SOLD]
            && bool_decide (price_amount (self w) = None))
           (ValidationError [PriceRequired]).

Definition can_transition_to (self : Listing) (new_status : ListingStatus)
    : bool :=
  if bool_decide (new_status = status self) then true
  else py_in new_status (dict_get STATUS_TRANSITIONS (status self) []).

(** [now] is the value of [timezone.now()] read by the method. *)
Definition _apply_status_timestamps (now : datetime)
    (previous_status : option ListingStatus) : M (world Listing) unit :=
  w ← get;
  (if bool_decide (status (self w) = ACTIVE)
      && negb (bool_decide (previous_status = Some ACTIVE))
   then assign (fun l => set_published_at (py_or (published_at l) now) l)
   else mret tt);;
  w ← get;
  (if bool_decide (status (self w) = SOLD)
      && negb (bool_decide (previous_status = Some SOLD))
   then assign (fun l => set_sold_at (py_or (sold_at l) now) l)
   else mret tt);;
  w ← get;
  (if bool_decide (status (self w) = ARCHIVED)
      && negb (bool_decide (previous_status = Some ARCHIVED))
   then assign (fun l => set_archived_at (py_or (archived_at l) now) l)
   else mret tt).

(** ** The framework under [Listing.save]

    [Model.full_clean] and [Model.save] are the framework's; they are
    written here from the declarations of the model: the options of its
    fields for [clean_fields], its [Meta.constraints] for
    [validate_constraints] (which [full_clean] runs since the release 4.1
    of the framework) and for the check made by the database. The fields
    [status] and [currency] hold one of their choices by their type, so
    they have no field error. An instance with a key was loaded from the
    table, so [full_clean] has no uniqueness to check for it. *)

(** A foreign key that is not nullable: its row must exist. *)

Definition fk_errors (name : string) (v : option positive)
    (rows : gset positive) : list (string * message) :=
  match v with
  | None => [(name, Code "null")]
  | Some k => if bool_decide (k ∈ rows) then [] else [(name, Code "invalid")]
  end.

(** [CharField(max_length=200)], not blank. *)
Definition title_errors (t : string) : list (string * message) :=
  if truthy_str t
  then if (200 <? String.length t)%nat then [("title", Code "max_length")]
       else []
  else [("title", Code "blank")].

(** [DecimalField(max_digits=12, decimal_places=2, null=True, blank=True)]. *)
Definition price_errors (p : option Z) : list (string * message) :=
  match p with
  | Some v => if bool_decide (10 ^ 12 ≤ Z.abs v)
              then [("price_amount", Code "max_digits")] else []
  | None => []
  end.

(** The field errors, in the order of the field declarations. *)
Definition field_errors (l : Listing) (d : DB) : list (string * message) :=
  fk_errors "owner" (owner_id l) (users d)
  ++ title_errors (title l)
  ++ fk_errors "category" (category_id l) (categories d)
  ++ fk_errors "region" (region_id l) (regions d)
  ++ fk_errors "city" (city_id l) (dom (cities d))
  ++ price_errors (price_amount l).

Definition clean_fields : M (world Listing) unit :=
  w ← get;
  match field_errors (self w) (db w) with
  | [] => mret tt
  | errors => raise (ValidationError errors)
  end.

(** [Q(price_amount__gte=0) | Q(price_amount__isnull=True)] *)
Definition listing_price_non_negative (l : Listing) : bool :=
  match price_amount l with
  | Some p => bool_decide (0 ≤ p)
  | None => true
  end.

(** A constraint is not evaluated when one of its fields is excluded. *)
Definition constraint_errors (exclude : list string) (l : Listing)
    : list (string * message) :=
  if negb (bool_decide ("price_amount" ∈ exclude))
     && negb (listing_price_non_negative l)
  then [NegativePrice] else [].

Definition validate_constraints (exclude : list string)
    : M (world Listing) unit :=
  w ← get;
  match constraint_errors exclude (self w) with
  | [] => mret tt
  | errors => raise (ValidationError errors)
  end.

(** The three validation steps all run; the fields that already carry an
    error are excluded from the constraint checks; the collected errors are
    raised as one [ValidationError]. *)
Definition full_clean : M (world Listing) unit :=
  errors ← collect clean_fields [];
  errors ← collect clean errors;
  errors ← collect (validate_constraints (fst <$> errors)) errors;
  match errors with
  | [] => mret tt
  | _ => raise (ValidationError errors)
  end.

(** [Model.save]: the auto fields are stamped on the instance
    ([auto_now] is the value of [timezone.now()] read there), the row is
    updated when the key names one and inserted otherwise, under a fresh key
    when the instance has none; the database checks the constraint. *)
Definition Model_save (auto_now : datetime) : M (world Listing) unit :=
  w ← get;
  let update :=
    match pk (self w) with
    | Some k => bool_decide (is_Some (listings (db w) !! k))
    | None => false
    end in
  assign (set_updated_at (Some auto_now));;
  (if update then mret tt else assign (set_created_at (Some auto_now)));;
  w ← get;
  raise_if (negb (listing_price_non_negative (self w)))
           (IntegrityError "listing_price_non_negative");;
  let k := match pk (self w) with
           | Some k => k
           | None => fresh (dom (listings (db w)))
           end in
  let row := set_pk (Some k) (self w) in
  put (World row (set_listings (<[k := row]> (listings (db w))) (db w))).

(** ** [Listing.save] *)

(** [Listing.objects.filter(pk=k).values_list("status", flat=True).first()] *)
Definition lookup_status (k : positive)
    : M (world Listing) (option ListingStatus) :=
  w ← get; mret (status <$> listings (db w) !! k).

(** The first statement of [save]: the transition check, which yields
    [previous_status]. *)
Definition check_transition : M (world Listing) (option ListingStatus) :=
  w ← get;
  match pk (self w) with
  | Some k =>
      previous_status ← lookup_status k;
      match previous_status with
      | Some previous =>
          raise_if (truthy_str (value previous)
                    && negb (bool_decide (previous = status (self w)))
                    && negb (can_transition_to (new_Listing previous)
                                               (status (self w))))
                   (ValidationError [InvalidTransition])
      | None => mret tt
      end;;
      mret previous_status
  | None =>
      raise_if (negb (bool_decide (status (self w) = DRAFT))
                && negb (can_transition_to (new_Listing DRAFT)
                                           (status (self w))))
               (ValidationError [InvalidTransition]);;
      mret None
  end.

Definition save (now auto_now : datetime) : M (world Listing) unit :=
  previous_status ← check_transition;
  full_clean;;
  _apply_status_timestamps now previous_status;;
  Model_save auto_now.

(** ** [ListingImage]: [Model.save] under [unique_primary_listing_image] *)

Definition image_set_pk (v : option positive) (i : ListingImage.t)
    : ListingImage.t :=
  {| ListingImage.pk := v;
     ListingImage.listing_id := ListingImage.listing_id i;
     ListingImage.image := ListingImage.image i;
     ListingImage.sort_order := ListingImage.sort_order i;
     ListingImage.is_primary := ListingImage.is_primary i;
     ListingImage.created_at := ListingImage.created_at i |}.

Definition image_set_created_at (v : option datetime) (i : ListingImage.t)
    : ListingImage.t :=
  {| ListingImage.pk := ListingImage.pk i;
     ListingImage.listing_id := ListingImage.listing_id i;
     ListingImage.image := ListingImage.image i;
     ListingImage.sort_order := ListingImage.sort_order i;
     ListingImage.is_primary := ListingImage.is_primary i;
     ListingImage.created_at := v |}.

Definition image_set_is_primary (v : bool) (i : ListingImage.t)
    : ListingImage.t :=
  {| ListingImage.pk := ListingImage.pk i;
     ListingImage.listing_id := ListingImage.listing_id i;
     ListingImage.image := ListingImage.image i;
     ListingImage.sort_order := ListingImage.sort_order i;
     ListingImage.is_primary := v;
     ListingImage.created_at := ListingImage.created_at i |}.

(** [UniqueConstraint(fields=["listing"], condition=Q(is_primary=True))]:
    the unique index holds the rows with [is_primary]; writing the row [row]
    under the key [k] conflicts when another row of the same listing is in
    the index. *)
Definition unique_primary_listing_image (t : gmap positive ListingImage.t)
    (k : positive) (row : ListingImage.t) : bool :=
  negb (ListingImage.is_primary row)
  || bool_decide
       (map_Forall
          (fun k' r => k' = k
                       ∨ ListingImage.listing_id r ≠ ListingImage.listing_id row
                       ∨ ListingImage.is_primary r = false) t).

(** [Model.save] of a [ListingImage] ([created_at] is [auto_now_add]). *)
Definition Image_save (auto_now_add : datetime)
    : M (world ListingImage.t) unit :=
  w ← get;
  let t := images (db w) in
  let k := match ListingImage.pk (self w) with
           | Some k => k
           | None => fresh (dom t)
           end in
  (if bool_decide (is_Some (t !! k)) then mret tt
   else assign (image_set_created_at (Some auto_now_add)));;
  w ← get;
  let row := image_set_pk (Some k) (self w) in
  raise_if (negb (unique_primary_listing_image t k row))
           (IntegrityError "unique_primary_listing_image");;
  put (World row (set_images (<[k := row]> t) (db w))).

(** [Model.delete] of the image under the key [k]. *)
Definition Image_delete (k : positive) : M DB unit :=
  fun d => (inr tt, set_images (delete k (images d)) d).

(** ** [listings/views.py] *)

(** The authenticated user of the request. *)
Record User := { id : positive; is_staff : bool }.

(** A request handler builds or loads an instance, runs a model method on
    it and drops it. *)
Definition on_instance {T A} (i : T) (m : M (world T) A) : M DB A :=
  fun d => let '(r, w) := m (World i d) in (r, db w).

(** [IsOwnerOrAdmin.has_object_permission]: an image has no [owner_id], its
    owner is the owner of its listing. *)
Definition has_object_permission (safe_method : bool) (user : User)
    (obj : Listing + ListingImage.t) (d : DB) : bool :=
  if safe_method then true
  else
    let owner :=
      match obj with
      | inl listing => owner_id listing
      | inr image => listings d !! ListingImage.listing_id image ≫= owner_id
      end in
    is_staff user || bool_decide (owner = Some (id user)).

(** [ListingImageViewSet.perform_create] on the validated data, an image
    whose listing exists. *)
Definition perform_create (user : User) (validated_data : ListingImage.t)
    (now : datetime) : M DB unit :=
  d ← get;
  match listings d !! ListingImage.listing_id validated_data with
  | None => raise (ValidationError [("listing", Code "does_not_exist")])
  | Some listing =>
      raise_if (negb (is_staff user)
                && negb (bool_decide (owner_id listing = Some (id user))))
               (PermissionDenied
                  "You can only add images to your own listings.");;
      on_instance validated_data (Image_save now)
  end.

(** The update of [is_primary] on the image [k], the only write path of
    the view set that can make an existing image the primary one
    ([ModelViewSet.partial_update]): the object is fetched or the request
    ends with 404 (the instance carries the key it was fetched by), the
    object permission is checked, the attribute is assigned and the instance
    saved. *)
Definition update_is_primary (user : User) (k : positive) (v : bool)
    (now : datetime) : M DB unit :=
  d ← get;
  match images d !! k with
  | None => raise Http404
  | Some image =>
      raise_if (negb (has_object_permission false user (inr image) d))
               (PermissionDenied
                  "You do not have permission to perform this action.");;
      on_instance (image_set_is_primary v (image_set_pk (Some k) image))
                  (Image_save now)
  end.

(** ** The vocabulary of the specification *)

(** The transition graph as the specification draws it. *)
Definition successor (from to : ListingStatus) : bool :=
  match from, to with
  | DRAFT, ACTIVE | DRAFT, ARCHIVED => true
  | ACTIVE, SOLD | ACTIVE, ARCHIVED => true
  | SOLD, ARCHIVED => true
  | _, _ => false
  end.

(** A status change is allowed when it is a self-loop or follows an edge. *)
Definition allowed (from to : ListingStatus) : bool :=
  bool_decide (to = from) || successor from to.

(** A computation fails with a classified error when it raises a
    [ValidationError] whose dict holds that error. *)
Definition fails_with {A} (kind : string * message) (r : exn + A) : Prop :=
  exists d, r = inl (ValidationError d) /\ kind ∈ d.

(** [self.city.region_id], when the listing has a city and its row exists. *)
Definition city_region (l : Listing) (d : DB) : option positive :=
  c ← city_id l; City.region_id <$> cities d !! c.

(** The three business rules, as violations. *)
Definition city_mismatch (l : Listing) (d : DB) : bool :=
  match city_region l d, region_id l with
  | Some cr, Some r => negb (bool_decide (cr = r))
  | _, _ => false
  end.

Definition price_missing (l : Listing) : bool :=
  (bool_decide (status l = ACTIVE) || bool_decide (status l = SOLD))
  && bool_decide (price_amount l = None).

Definition price_negative (l : Listing) : bool :=
  match price_amount l with
  | Some p => bool_decide (p < 0)
  | None => false
  end.

Definition violated_rules (l : Listing) (d : DB) : list (string * message) :=
  (if city_mismatch l d then [ReferentialMismatch] else [])
  ++ (if price_missing l then [PriceRequired] else [])
  ++ (if price_negative l then [NegativePrice] else []).

(** The invariant [city.region == listing.region]. *)
Definition city_in_region (l : Listing) (d : DB) : bool :=
  match city_region l d, region_id l with
  | Some cr, Some r => bool_decide (cr = r)
  | _, _ => false
  end.

(** At most one image of a listing is its primary image. *)
Definition at_most_one_primary (t : gmap positive ListingImage.t) : Prop :=
  forall k1 k2 i1 i2,
    t !! k1 = Some i1 -> t !! k2 = Some i2 ->
    ListingImage.listing_id i1 = ListingImage.listing_id i2 ->
    ListingImage.is_primary i1 = true -> ListingImage.is_primary i2 = true ->
    k1 = k2.







(** One successful write of the backend. *)
Inductive mutation : DB -> DB -> Prop :=
| mutation_listing_save now auto_now l d l' d' :
    save now auto_now (World l d) = (inr tt, World l' d') -> mutation d d'
| mutation_image_save now i d i' d' :
    Image_save now (World i d) = (inr tt, World i' d') -> mutation d d'
| mutation_image_create user data now d d' :
    perform_create user data now d = (inr tt, d') -> mutation d d'
| mutation_image_update user k v now d d' :
    update_is_primary user k v now d = (inr tt, d') -> mutation d d'
| mutation_image_delete k d d' :
    Image_delete k d = (inr tt, d') -> mutation d d'.

(** Any number of successful writes. *)
Inductive mutations : DB -> DB -> Prop :=
| mutations_refl d : mutations d d
| mutations_step d d1 d2 : mutations d d1 -> mutation d1 d2 -> mutations d d2.

(** The key and the row of an image write. *)
Definition image_key (i : ListingImage.t) (d : DB) : positive :=
  match ListingImage.pk i with
  | Some k => k
  | None => fresh (dom (images d))
  end.

Definition image_row (auto_now_add : datetime) (i : ListingImage.t) (d : DB)
    : ListingImage.t :=
  image_set_pk (Some (image_key i d))
    (if bool_decide (is_Some (images d !! image_key i d)) then i
     else image_set_created_at (Some auto_now_add) i).

(** ** Vocabulary of the proofs *)

Definition reads {S A} (m : M S A) : Prop := forall s, snd (m s) = s.

(** The city row asked for by [clean] is missing. *)
Definition city_unknown (l : Listing) (d : DB) : bool :=
  match city_id l, region_id l with
  | Some c, Some _ => bool_decide (cities d !! c = None)
  | _, _ => false
  end.

(** The outcome of [full_clean] for a collected error dict. *)
Definition raised (errors : list (string * message)) : exn + unit :=
  match errors with
  | [] => inr tt
  | _ => inl (ValidationError errors)
  end.

(** The status of the listing is [target] and was not before. *)
Definition entering (target : ListingStatus)
    (previous_status : option ListingStatus) (l : Listing) : bool :=
  bool_decide (status l = target)
  && negb (bool_decide (previous_status = Some target)).

Definition stamped (now : datetime) (previous_status : option ListingStatus)
    (l : Listing) : Listing :=
  let l1 := if entering ACTIVE previous_status l
            then set_published_at (py_or (published_at l) now) l else l in
  let l2 := if entering SOLD previous_status l1
            then set_sold_at (py_or (sold_at l1) now) l1 else l1 in
  if entering ARCHIVED previous_status l2
  then set_archived_at (py_or (archived_at l2) now) l2 else l2.

(** The row written for a validated instance. *)
Definition persisted_key (l : Listing) (d : DB) : positive :=
  match pk l with
  | Some k => k
  | None => fresh (dom (listings d))
  end.

Definition auto_stamped (auto_now : datetime) (l : Listing) (d : DB)
    : Listing :=
  let l1 := set_updated_at (Some auto_now) l in
  if match pk l with
     | Some k => bool_decide (is_Some (listings d !! k))
     | None => false
     end
  then l1 else set_created_at (Some auto_now) l1.

Definition persisted (auto_now : datetime) (l : Listing) (d : DB) : Listing :=
  set_pk (Some (persisted_key l d)) (auto_stamped auto_now l d).

(** The previous status that [save] hands to [_apply_status_timestamps]. *)
Definition previous_status_of (l : Listing) (d : DB) : option ListingStatus :=
  k ← pk l; status <$> listings d !! k.

(** ** Sample data *)

Definition db0 : DB :=
  {| users := {[1%positive]}; categories := {[1%positive]};
     regions := {[1%positive; 2%positive]};
     cities :=
       <[1%positive := {| City.region_id := 1; City.name := "Windhoek" |}]>
         (<[2%positive := {| City.region_id := 2;
                             City.name := "Swakopmund" |}]> ∅);
     listings := ∅; images := ∅ |}.

(** A new listing of user 1 in city 1 of region 1. *)
Definition listing0 (s : ListingStatus) (price : option Z) : Listing :=
  {| pk := None; owner_id := Some 1%positive; title := "Bicycle";
     description := EmptyString; category_id := Some 1%positive;
     region_id := Some 1%positive; city_id := Some 1%positive;
     price_amount := price; currency := NAD; is_negotiable := false;
     status := s; created_at := None; updated_at := None;
     published_at := None; sold_at := None; archived_at := None |}.

(** The row of key [k] of user 1 in city 1 of region 1. *)
Definition row0 (k : positive) (s : ListingStatus) (price : option Z)
    : Listing :=
  set_pk (Some k) (listing0 s price).

(** The sample database with one listing row. *)
Definition db1 (row : Listing) : DB :=
  set_listings (<[1%positive := row]> ∅) db0.

(** The same listing with city 2, which belongs to region 2. *)
Definition in_city2 (l : Listing) : Listing := set_city_id (Some 2%positive) l.

(** The scenarios of the specification, one write after the other: a draft
    is created without a price, published at a price, then archived. *)
Definition after_create : world Listing :=
  snd (save 100 101 (World (listing0 DRAFT None) db0)).

Definition after_publish : world Listing :=
  snd (save 300 301
         (World (set_price_amount (Some 15000)
                   (set_status ACTIVE (self after_create)))
                (db after_create))).

Definition after_archive : world Listing :=
  snd (save 400 401
         (World (set_status ARCHIVED (self after_publish))
                (db after_publish))).

(** An image of listing 1. *)
Definition image0 (k : positive) (primary : bool) : ListingImage.t :=
  {| ListingImage.pk := Some k; ListingImage.listing_id := 1;
     ListingImage.image := "listings/2026/01/01/a.jpg";
     ListingImage.sort_order := 0; ListingImage.is_primary := primary;
     ListingImage.created_at := Some 50 |}.

(** Listing 1 with two images, the first one primary. *)
Definition db2 : DB :=
  set_images (<[1%positive := image0 1 true]>
                (<[2%positive := image0 2 false]> ∅))
             (db1 (row0 1 ACTIVE (Some 15000))).


(** * Properties *)

Ltac unfold_monad :=
  cbv [mbind mret M_bind M_ret bind ret raise_if raise get put assign
       collect] in *.

(** ** The scenarios of the specification, run on the model *)

(** Scenario A: a draft without a price is created; its price is null. *)
Example scenario_A :
  fst (save 100 101 (World (listing0 DRAFT None) db0)) = inr tt
  /\ pk (self after_create) = Some 1%positive
  /\ listings (db after_create) !! 1%positive = Some (self after_create)
  /\ price_amount (self after_create) = None
  /\ created_at (self after_create) = Some 101.
Proof. by vm_compute. Qed.

(** Scenario B: publishing it without a price fails with [PriceRequired]. *)
Example scenario_B :
  save 200 201 (World (set_status ACTIVE (self after_create))
                      (db after_create))
  = (inl (ValidationError [PriceRequired]),
     World (set_status ACTIVE (self after_create)) (db after_create)).
Proof. by vm_compute. Qed.

(** Scenario C: publishing it at 150.00 succeeds and stamps
    [published_at] only. *)
Example scenario_C :
  status (self after_publish) = ACTIVE
  /\ listings (db after_publish) !! 1%positive = Some (self after_publish)
  /\ published_at (self after_publish) = Some 300
  /\ sold_at (self after_publish) = None
  /\ archived_at (self after_publish) = None
  /\ updated_at (self after_publish) = Some 301.
Proof. by vm_compute. Qed.

(** Scenario D: archiving the active listing succeeds and stamps
    [archived_at]; a further update to active fails with
    [InvalidTransition]. *)
Example scenario_D :
  status (self after_archive) = ARCHIVED
  /\ published_at (self after_archive) = Some 300
  /\ archived_at (self after_archive) = Some 400
  /\ fst (save 500 501 (World (set_status ACTIVE (self after_archive))
                              (db after_archive)))
     = inl (ValidationError [InvalidTransition]).
Proof. by vm_compute. Qed.

(** Scenario E: a city of another region fails with
    [ReferentialMismatch]. *)
Example scenario_E :
  fst (save 200 201 (World (in_city2 (self after_create))
                           (db after_create)))
  = inl (ValidationError [ReferentialMismatch]).
Proof. by vm_compute. Qed.

(** ** Computations that only read the state *)

Lemma reads_run {S A} (m : M S A) s : reads m -> m s = (fst (m s), s).
Proof. intros H. rewrite <- (H s) at 3. by destruct (m s). Qed.

Lemma bind_reads {S A B} (m : M S A) (k : A -> M S B) :
  reads m -> (forall a, reads (k a)) -> reads (m ≫= k).
Proof.
  intros Hm Hk s. unfold mbind, M_bind, bind. rewrite (reads_run m s Hm).
  destruct (fst (m s)); [done | apply Hk].
Qed.

Lemma collect_reads {S} (m : M S unit) errors :
  reads m -> reads (collect m errors).
Proof.
  intros H s. unfold collect. rewrite (reads_run m s H).
  destruct (fst (m s)) as [[]|]; done.
Qed.

Lemma clean_fields_reads : reads clean_fields.
Proof. intros w. unfold clean_fields. unfold_monad. by case_match. Qed.

Lemma clean_reads : reads clean.
Proof.
  intros w. unfold clean, related_city. unfold_monad.
  repeat case_match; simplify_eq/=; done.
Qed.

Lemma validate_constraints_reads ex : reads (validate_constraints ex).
Proof. intros w. unfold validate_constraints. unfold_monad. by case_match. Qed.

Lemma full_clean_reads : reads full_clean.
Proof.
  unfold full_clean.
  apply bind_reads; [apply collect_reads, clean_fields_reads | intros e1].
  apply bind_reads; [apply collect_reads, clean_reads | intros e2].
  apply bind_reads;
    [apply collect_reads, validate_constraints_reads | intros e3].
  intros w. by destruct e3.
Qed.

Lemma check_transition_reads : reads check_transition.
Proof.
  intros w. unfold check_transition, lookup_status. unfold_monad.
  repeat case_match; simplify_eq/=; done.
Qed.

(** ** The transition check *)

Lemma can_transition_to_allowed previous new_status :
  can_transition_to (new_Listing previous) new_status
  = allowed previous new_status.
Proof. by destruct previous, new_status. Qed.

Lemma truthy_value s : truthy_str (value s) = true.
Proof. by destruct s. Qed.

Lemma check_transition_existing l d k row :
  pk l = Some k -> listings d !! k = Some row ->
  check_transition (World l d)
  = if allowed (status row) (status l)
    then (inr (Some (status row)), World l d)
    else (inl (ValidationError [InvalidTransition]), World l d).
Proof.
  intros Hk Hrow. unfold check_transition, lookup_status. unfold_monad.
  cbv [self db]. rewrite Hk, Hrow.
  cbn [fmap option_fmap option_map].
  rewrite truthy_value, can_transition_to_allowed.
  destruct (status row), (status l); reflexivity.
Qed.

Lemma check_transition_new l d :
  pk l = None ->
  check_transition (World l d)
  = if allowed DRAFT (status l)
    then (inr None, World l d)
    else (inl (ValidationError [InvalidTransition]), World l d).
Proof.
  intros Hk. unfold check_transition. unfold_monad. cbv [self db].
  rewrite Hk, can_transition_to_allowed. by destruct (status l).
Qed.

Lemma check_transition_missing l d k :
  pk l = Some k -> listings d !! k = None ->
  check_transition (World l d) = (inr None, World l d).
Proof.
  intros Hk Hrow. unfold check_transition, lookup_status. unfold_monad.
  cbv [self db]. by rewrite Hk, Hrow.
Qed.

(** ** Validation *)

(** What [clean] raises: the first violated rule only. *)
Lemma clean_outcome l d :
  fst (clean (World l d))
  = if city_unknown l d then inl (DoesNotExist "City")
    else if city_mismatch l d then inl (ValidationError [ReferentialMismatch])
    else if price_missing l then inl (ValidationError [PriceRequired])
    else inr tt.
Proof.
  unfold clean, related_city, city_unknown, city_mismatch, city_region,
    price_missing, py_in.
  unfold_monad. cbv [self db].
  destruct (city_id l) as [c|]; cbn [mbind option_bind];
    [destruct (region_id l) as [r|] |].
  1: destruct (cities d !! c) as [city|] eqn:Hc;
       cbn [fmap option_fmap option_map];
       [destruct (bool_decide (City.region_id city = r)) |].
  all: cbn [negb fst]; try reflexivity.
  all: try (destruct (cities d !! c); cbn [fmap option_fmap option_map]).
  all: destruct (status l), (price_amount l); reflexivity.
Qed.

Lemma bind_run {S A B} (m : M S A) (k : A -> M S B) s :
  (m ≫= k) s = match m s with
               | (inl e, s') => (inl e, s')
               | (inr a, s') => k a s'
               end.
Proof. reflexivity. Qed.

Lemma collect_run {S} (m : M S unit) errors s :
  reads m ->
  collect m errors s
  = (match fst (m s) with
     | inl (ValidationError d) => inr (errors ++ d)
     | inl e => inl e
     | inr _ => inr errors
     end, s).
Proof.
  intros H. unfold collect. rewrite (reads_run m s H).
  by destruct (fst (m s)) as [[]|].
Qed.

Lemma clean_fields_outcome l d :
  fst (clean_fields (World l d)) = raised (field_errors l d).
Proof.
  unfold clean_fields. unfold_monad. cbv [self db].
  by destruct (field_errors l d).
Qed.

Lemma validate_constraints_outcome ex l d :
  fst (validate_constraints ex (World l d)) = raised (constraint_errors ex l).
Proof.
  unfold validate_constraints. unfold_monad. cbv [self db].
  by destruct (constraint_errors ex l).
Qed.

Lemma full_clean_outcome l d :
  fst (full_clean (World l d))
  = match fst (clean (World l d)) with
    | inl (ValidationError c) =>
        raised ((field_errors l d ++ c)
                ++ constraint_errors (fst <$> field_errors l d ++ c) l)
    | inl e => inl e
    | inr _ =>
        raised (field_errors l d
                ++ constraint_errors (fst <$> field_errors l d) l)
    end.
Proof.
  unfold full_clean.
  rewrite bind_run, (collect_run _ _ _ clean_fields_reads),
    clean_fields_outcome.
  assert (Hnil : forall es : list (string * message),
             match raised es with
             | inl (ValidationError d) => inr ([] ++ d)
             | inl e => inl e
             | inr _ => inr []
             end = (inr es : exn + list (string * message))).
  { by intros []. }
  rewrite Hnil.
  rewrite bind_run, (collect_run _ _ _ clean_reads).
  destruct (fst (clean (World l d))) as [[c| | | |]|[]]; try reflexivity.
  all: rewrite bind_run, (collect_run _ _ _ (validate_constraints_reads _)),
         validate_constraints_outcome.
  all: match goal with
       | |- context [constraint_errors ?ex ?x] =>
           destruct (constraint_errors ex x) eqn:Hce
       end; rewrite ?app_nil_r; cbn [raised fst].
  all: unfold raised; repeat case_match; simplify_eq/=; try reflexivity.
  all: try (exfalso; eapply app_cons_not_nil; eauto; fail).
Qed.

Lemma raised_ok errors : raised errors = inr tt -> errors = [].
Proof. by destruct errors. Qed.

Lemma raised_error errors e :
  raised errors = inl e -> e = ValidationError errors /\ errors <> [].
Proof. destruct errors; [done|]. intros [= <-]. done. Qed.

(** A listing that passes [full_clean] has no field error, passes [clean]
    and satisfies the price constraint. *)
Lemma full_clean_ok l d :
  fst (full_clean (World l d)) = inr tt ->
  field_errors l d = [] /\ fst (clean (World l d)) = inr tt
  /\ listing_price_non_negative l = true.
Proof.
  rewrite full_clean_outcome.
  pose proof (clean_outcome l d) as Hc.
  destruct (fst (clean (World l d))) as [[c| | | |]|[]]; try done.
  - intros H%raised_ok. apply app_eq_nil in H as [H _].
    apply app_eq_nil in H as [_ ->].
    by repeat case_match.
  - intros H%raised_ok. apply app_eq_nil in H as [H1 H2].
    rewrite H1 in H2 |- *. split_and!; try done.
    unfold constraint_errors in H2. cbn in H2.
    by destruct (listing_price_non_negative l).
Qed.

(** ** The lifecycle timestamps *)

Lemma apply_status_timestamps_run now previous_status l d :
  _apply_status_timestamps now previous_status (World l d)
  = (inr tt, World (stamped now previous_status l) d).
Proof.
  destruct l as [? ? ? ? ? ? ? ? ? ? [] ? ? ? ? ?],
    previous_status as [[]|]; reflexivity.
Qed.




Lemma stamped_other now previous_status l :
  let l' := stamped now previous_status l in
  pk l' = pk l /\ status l' = status l /\ price_amount l' = price_amount l
  /\ city_id l' = city_id l /\ region_id l' = region_id l
  /\ created_at l' = created_at l /\ updated_at l' = updated_at l.
Proof. unfold stamped. by repeat (case_match; simpl). Qed.

(** ** [Model.save] and [Listing.save] *)

Lemma Model_save_run auto_now l d :
  Model_save auto_now (World l d)
  = if listing_price_non_negative l
    then (inr tt,
          World (persisted auto_now l d)
                (set_listings (<[persisted_key l d := persisted auto_now l d]>
                                 (listings d)) d))
    else (inl (IntegrityError "listing_price_non_negative"),
          World (auto_stamped auto_now l d) d).
Proof.
  unfold Model_save, persisted, persisted_key, auto_stamped. unfold_monad.
  cbv [self db].
  destruct (pk l) as [k|] eqn:Hk.
  - destruct (bool_decide (is_Some (listings d !! k))); cbv [self db].
    all: change (listing_price_non_negative (set_updated_at _ l))
           with (listing_price_non_negative l);
      change (listing_price_non_negative (set_created_at _ _))
           with (listing_price_non_negative l).
    all: destruct (listing_price_non_negative l); cbn [negb]; try reflexivity.
    all: simpl; by rewrite Hk.
  - cbv [self db].
    change (listing_price_non_negative (set_created_at _ _))
      with (listing_price_non_negative l).
    destruct (listing_price_non_negative l); cbn [negb]; try reflexivity.
    simpl. by rewrite Hk.
Qed.

Lemma save_run now auto_now l d :
  save now auto_now (World l d)
  = match fst (check_transition (World l d)) with
    | inl e => (inl e, World l d)
    | inr previous_status =>
        match fst (full_clean (World l d)) with
        | inl e => (inl e, World l d)
        | inr _ =>
            Model_save auto_now (World (stamped now previous_status l) d)
        end
    end.
Proof.
  unfold save.
  rewrite bind_run, (reads_run _ _ check_transition_reads).
  destruct (fst (check_transition (World l d))) as [e|previous_status];
    [done|].
  rewrite bind_run, (reads_run _ _ full_clean_reads).
  destruct (fst (full_clean (World l d))) as [e|[]]; [done|].
  by rewrite bind_run, apply_status_timestamps_run.
Qed.

(** After a successful [full_clean] the database accepts the row. *)
Lemma save_success now auto_now l d previous_status :
  fst (check_transition (World l d)) = inr previous_status ->
  fst (full_clean (World l d)) = inr tt ->
  let row := persisted auto_now (stamped now previous_status l) d in
  save now auto_now (World l d)
  = (inr tt,
     World row
       (set_listings (<[persisted_key l d := row]> (listings d)) d)).
Proof.
  intros Hct Hfc. rewrite save_run, Hct, Hfc, Model_save_run.
  destruct (stamped_other now previous_status l)
    as (Hpk & _ & Hprice & _).
  apply full_clean_ok in Hfc as (_ & _ & Hnn).
  unfold listing_price_non_negative in *. rewrite Hprice, Hnn.
  unfold persisted_key. by rewrite Hpk.
Qed.

(** Every exception of [save] comes from the transition check or from
    [full_clean], and leaves the instance and the database as they were. *)
Lemma save_failure now auto_now l d e :
  fst (save now auto_now (World l d)) = inl e ->
  snd (save now auto_now (World l d)) = World l d
  /\ (fst (check_transition (World l d)) = inl e
      \/ exists previous_status,
           fst (check_transition (World l d)) = inr previous_status
           /\ fst (full_clean (World l d)) = inl e).
Proof.
  destruct (fst (check_transition (World l d))) as [e'|previous_status] eqn:Hct.
  { rewrite save_run, Hct. simpl. intros [= ->]. auto. }
  destruct (fst (full_clean (World l d))) as [e'|[]] eqn:Hfc.
  { rewrite save_run, Hct, Hfc. simpl. intros [= ->]. eauto. }
  by rewrite (save_success _ _ _ _ _ Hct Hfc).
Qed.

(** ** What a failed [full_clean] reports *)

(** Membership in an explicit list, case by case. *)
Ltac elem_cases H :=
  repeat (apply elem_of_cons in H as [->|H]);
  try (by apply elem_of_nil in H).

Lemma fk_errors_code name v rows e :
  e ∈ fk_errors name v rows -> exists c, e.2 = Code c.
Proof.
  unfold fk_errors.
  destruct v as [k|]; [destruct (bool_decide (k ∈ rows))|];
    intros H; elem_cases H; eauto.
Qed.

Lemma field_errors_code l d e :
  e ∈ field_errors l d -> exists c, e.2 = Code c.
Proof.
  unfold field_errors. rewrite !elem_of_app.
  intros [H|[H|[H|[H|[H|H]]]]]; eauto using fk_errors_code.
  - unfold title_errors in H.
    destruct (truthy_str (title l)); [destruct (200 <? _)%nat|];
      elem_cases H; eauto.
  - unfold price_errors in H.
    destruct (price_amount l) as [p|]; [destruct (bool_decide _)|];
      elem_cases H; eauto.
Qed.

Lemma constraint_errors_elem ex l e :
  e ∈ constraint_errors ex l -> e = NegativePrice.
Proof.
  unfold constraint_errors. destruct (_ && _); intros H; by elem_cases H.
Qed.

(** The errors of a failed [full_clean]: field errors, then the error of
    [clean], then the violated constraint. *)
Lemma full_clean_reports l d errors e :
  fst (full_clean (World l d)) = inl (ValidationError errors) ->
  e ∈ errors ->
  (exists c, e.2 = Code c)
  \/ fst (clean (World l d)) = inl (ValidationError [e])
  \/ e = NegativePrice.
Proof.
  rewrite full_clean_outcome. pose proof (clean_outcome l d) as Hc.
  destruct (fst (clean (World l d))) as [[c| | | |]|[]]; try done.
  - intros [[= ->] _]%raised_error. rewrite !elem_of_app.
    intros [[H|H]|H].
    + left. eauto using field_errors_code.
    + right; left.
      destruct (city_unknown l d); [done|].
      destruct (city_mismatch l d);
        [|destruct (price_missing l); [|done]].
      all: injection Hc as ->; apply list_elem_of_singleton in H as ->; done.
    + right; right. eauto using constraint_errors_elem.
  - intros [[= ->] _]%raised_error. rewrite !elem_of_app.
    intros [H|H]; eauto using field_errors_code, constraint_errors_elem.
Qed.

Lemma clean_not_transition l d :
  fst (clean (World l d)) <> inl (ValidationError [InvalidTransition]).
Proof.
  rewrite clean_outcome.
  by destruct (city_unknown l d), (city_mismatch l d), (price_missing l).
Qed.

Lemma full_clean_not_transition l d :
  ~ fails_with InvalidTransition (fst (full_clean (World l d))).
Proof.
  intros (errors & He & Hin).
  destruct (full_clean_reports _ _ _ _ He Hin) as [[c Hc]|[H|H]]; try done.
  by apply clean_not_transition in H.
Qed.

(** [save] fails with [InvalidTransition] only in its transition check. *)
Lemma save_transition_passed now auto_now l d previous_status :
  fst (check_transition (World l d)) = inr previous_status ->
  ~ fails_with InvalidTransition (fst (save now auto_now (World l d))).
Proof.
  intros Hct (errors & He & Hin).
  apply save_failure in He as [_ [He|(p & _ & He)]].
  - by rewrite Hct in He.
  - apply (full_clean_not_transition l d). by exists errors.
Qed.

(** C1. For an existing listing (the instance has a key and the status lookup
    finds its row), a save whose new status is neither the persisted status
    nor one of its direct successors in the graph
    draft -> {active, archived}, active -> {sold, archived},
    sold -> {archived}, archived -> {} fails with [InvalidTransition] and
    changes nothing; a new status on an allowed edge (or equal to the
    persisted one) passes the transition check, and the save then never
    fails with [InvalidTransition]. *)
Theorem save_existing_follows_graph now auto_now l d k row :
  pk l = Some k -> listings d !! k = Some row ->
  (allowed (status row) (status l) = false ->
   save now auto_now (World l d)
   = (inl (ValidationError [InvalidTransition]), World l d))
  /\ (allowed (status row) (status l) = true ->
      check_transition (World l d) = (inr (Some (status row)), World l d)
      /\ ~ fails_with InvalidTransition
             (fst (save now auto_now (World l d)))).
Proof.
  intros Hk Hrow.
  pose proof (check_transition_existing l d k row Hk Hrow) as Hct.
  split; intros Ha; rewrite Ha in Hct.
  - by rewrite save_run, Hct.
  - split; [done|]. eapply save_transition_passed. by rewrite Hct.
Qed.

Lemma save_existing_follows_graph_witness :
  let row := row0 1 ARCHIVED (Some 15000) in
  let l := row0 1 ACTIVE (Some 15000) in
  save 100 101 (World l (db1 row))
  = (inl (ValidationError [InvalidTransition]), World l (db1 row))
  /\ check_transition (World row (db1 l))
     = (inr (Some ACTIVE), World row (db1 l)).
Proof.
  intros row l. split.
  - apply (save_existing_follows_graph 100 101 l (db1 row) 1%positive row);
      reflexivity.
  - apply (save_existing_follows_graph 100 101 row (db1 l) 1%positive l);
      reflexivity.
Defined.

(** C2, as stated, fails: a new listing created directly with status
    archived passes the transition check and is saved. *)
Lemma create_archived_is_accepted :
  pk (listing0 ARCHIVED None) = None
  /\ fst (save 100 101 (World (listing0 ARCHIVED None) db0)) = inr tt
  /\ ~ fails_with InvalidTransition
         (fst (save 100 101 (World (listing0 ARCHIVED None) db0))).
Proof.
  assert (H : fst (save 100 101 (World (listing0 ARCHIVED None) db0))
              = inr tt) by (vm_compute; reflexivity).
  split_and!; [done | done |]. intros (errors & He & _).
  rewrite H in He. discriminate.
Qed.

(** C2, amended. For a new listing (no key) the transition check is made
    from draft: creating it directly with status active or archived passes
    the check (the save never fails with [InvalidTransition]), creating it
    directly with status sold fails with [InvalidTransition]. *)
Theorem save_new_checked_from_draft now auto_now l d :
  pk l = None ->
  (status l = ACTIVE \/ status l = ARCHIVED ->
   check_transition (World l d) = (inr None, World l d)
   /\ ~ fails_with InvalidTransition (fst (save now auto_now (World l d))))
  /\ (status l = SOLD ->
      save now auto_now (World l d)
      = (inl (ValidationError [InvalidTransition]), World l d)).
Proof.
  intros Hk. pose proof (check_transition_new l d Hk) as Hct.
  split.
  - intros Hs.
    assert (Ha : allowed DRAFT (status l) = true)
      by (destruct Hs as [-> | ->]; reflexivity).
    rewrite Ha in Hct. split; [done|].
    eapply save_transition_passed. by rewrite Hct.
  - intros Hs. rewrite Hs in Hct. by rewrite save_run, Hct.
Qed.

Lemma save_new_checked_from_draft_witness :
  save 100 101 (World (listing0 SOLD (Some 15000)) db0)
  = (inl (ValidationError [InvalidTransition]),
     World (listing0 SOLD (Some 15000)) db0)
  /\ check_transition (World (listing0 ARCHIVED None) db0)
     = (inr None, World (listing0 ARCHIVED None) db0).
Proof.
  split.
  - apply (save_new_checked_from_draft 100 101
             (listing0 SOLD (Some 15000)) db0); reflexivity.
  - apply (save_new_checked_from_draft 100 101
             (listing0 ARCHIVED None) db0); [reflexivity | by right].
Defined.

(** C10. When the instance carries a key but the status lookup finds no
    row, the transition check is skipped: it yields no previous status for
    whatever status is written, and the save cannot fail with
    [InvalidTransition]. *)
Theorem save_missing_row_skips_check now auto_now l d k :
  pk l = Some k -> listings d !! k = None ->
  check_transition (World l d) = (inr None, World l d)
  /\ ~ fails_with InvalidTransition (fst (save now auto_now (World l d))).
Proof.
  intros Hk Hrow.
  pose proof (check_transition_missing l d k Hk Hrow) as Hct.
  split; [done|]. eapply save_transition_passed. by rewrite Hct.
Qed.

Lemma save_missing_row_skips_check_witness :
  let l := row0 7 SOLD (Some 15000) in
  check_transition (World l db0) = (inr None, World l db0)
  /\ ~ fails_with InvalidTransition (fst (save 100 101 (World l db0))).
Proof.
  intros l.
  apply (save_missing_row_skips_check 100 101 l db0 7%positive); reflexivity.
Defined.

(** A listing that fails the validation is not written. *)
Lemma invalid_not_saved now auto_now l d e :
  fst (full_clean (World l d)) = inl e ->
  exists e', save now auto_now (World l d) = (inl e', World l d).
Proof.
  intros H. rewrite save_run.
  destruct (fst (check_transition (World l d))); [eauto|].
  rewrite H. eauto.
Qed.

(** C8. A rejected write is atomic: when the transition check or the
    validation raises, [save] raises that exception of the transition check
    or of the validation with the instance (lifecycle timestamps included)
    and the database exactly as they were; every exception of [save] is of
    this kind. *)
Theorem rejected_save_changes_nothing now auto_now l d e :
  (fst (check_transition (World l d)) = inl e
   \/ fst (full_clean (World l d)) = inl e
   \/ fst (save now auto_now (World l d)) = inl e) ->
  exists e',
    save now auto_now (World l d) = (inl e', World l d)
    /\ (fst (check_transition (World l d)) = inl e'
        \/ fst (full_clean (World l d)) = inl e').
Proof.
  intros H.
  assert (Hs : forall e0, fst (save now auto_now (World l d)) = inl e0 ->
               exists e',
                 save now auto_now (World l d) = (inl e', World l d)
                 /\ (fst (check_transition (World l d)) = inl e'
                     \/ fst (full_clean (World l d)) = inl e')).
  { intros e0 He. apply save_failure in He as Hf.
    destruct Hf as [Hw Hf]. exists e0. split.
    - destruct (save now auto_now (World l d)). simpl in *. congruence.
    - destruct Hf as [Hf|(p & _ & Hf)]; auto. }
  destruct H as [H|[H|H]]; [| |eauto].
  - apply (Hs e). by rewrite save_run, H.
  - destruct (fst (check_transition (World l d))) as [e0|p] eqn:Hct.
    + apply (Hs e0). by rewrite save_run, Hct.
    + apply (Hs e). by rewrite save_run, Hct, H.
Qed.

Lemma rejected_save_changes_nothing_witness :
  let row := row0 1 DRAFT None in
  let l := row0 1 ACTIVE None in
  exists e',
    save 100 101 (World l (db1 row)) = (inl e', World l (db1 row))
    /\ (fst (check_transition (World l (db1 row))) = inl e'
        \/ fst (full_clean (World l (db1 row))) = inl e').
Proof.
  intros row l.
  apply (rejected_save_changes_nothing 100 101 l (db1 row)
           (ValidationError [PriceRequired])).
  right; left. vm_compute. reflexivity.
Defined.

(** ** Sticky timestamps *)


Lemma check_transition_previous l d previous_status :
  fst (check_transition (World l d)) = inr previous_status ->
  previous_status = previous_status_of l d.
Proof.
  unfold previous_status_of. destruct (pk l) as [k|] eqn:Hk.
  - cbn [mbind option_bind].
    destruct (listings d !! k) as [row|] eqn:Hrow.
    + rewrite (check_transition_existing l d k row Hk Hrow).
      destruct (allowed _ _); simpl; [|done]. by intros [= <-].
    + rewrite (check_transition_missing l d k Hk Hrow). simpl.
      by intros [= <-].
  - rewrite (check_transition_new l d Hk).
    destruct (allowed _ _); simpl; [|done]. by intros [= <-].
Qed.

(** A successful save, spelled out. *)
Lemma save_ok_inv now auto_now l d l' d' :
  save now auto_now (World l d) = (inr tt, World l' d') ->
  fst (check_transition (World l d)) = inr (previous_status_of l d)
  /\ fst (full_clean (World l d)) = inr tt
  /\ l' = persisted auto_now (stamped now (previous_status_of l d) l) d
  /\ d' = set_listings (<[persisted_key l d := l']> (listings d)) d.
Proof.
  intros Hs.
  destruct (fst (check_transition (World l d))) as [e|p] eqn:Hct.
  { rewrite save_run, Hct in Hs. discriminate. }
  destruct (fst (full_clean (World l d))) as [e|[]] eqn:Hfc.
  { rewrite save_run, Hct, Hfc in Hs. discriminate. }
  rewrite (save_success _ _ _ _ _ Hct Hfc) in Hs.
  apply check_transition_previous in Hct as ->.
  by injection Hs as <- <-.
Qed.







(** ** The business rules *)

Lemma field_errors_fields l d f :
  f ∈ fst <$> field_errors l d ->
  f = "owner" \/ f = "title" \/ f = "category" \/ f = "region" \/ f = "city"
  \/ (f = "price_amount" /\ price_errors (price_amount l) <> []).
Proof.
  unfold field_errors. rewrite !fmap_app, !elem_of_app.
  unfold fk_errors, title_errors, price_errors.
  intros [H|[H|[H|[H|[H|H]]]]]; revert H;
    repeat match goal with
           | |- context [match ?x with _ => _ end] => destruct x
           end; simpl; intros H; elem_cases H; auto 10.
Qed.

Lemma negative_price_reported l d c :
  price_negative l = true -> price_errors (price_amount l) = [] ->
  c.1 <> "price_amount" ->
  NegativePrice ∈ constraint_errors (fst <$> field_errors l d ++ [c]) l.
Proof.
  intros Hneg Hpe Hc. unfold constraint_errors.
  assert (Hex : "price_amount" ∉ fst <$> field_errors l d ++ [c]).
  { rewrite fmap_app, elem_of_app. intros [H|H].
    - apply field_errors_fields in H.
      destruct H as [H|[H|[H|[H|[H|[_ H]]]]]]; done.
    - apply list_elem_of_singleton in H. congruence. }
  rewrite (bool_decide_eq_false_2 _ Hex).
  unfold price_negative, listing_price_non_negative in *.
  destruct (price_amount l) as [p|]; [|done].
  apply bool_decide_eq_true in Hneg.
  rewrite (bool_decide_eq_false_2 (0 ≤ p)) by lia.
  simpl. apply list_elem_of_singleton. done.
Qed.

Lemma city_rules_exclusive l d :
  city_mismatch l d = true -> city_unknown l d = false.
Proof.
  unfold city_mismatch, city_unknown, city_region.
  destruct (city_id l) as [c|]; [|done]. cbn [mbind option_bind].
  destruct (region_id l); destruct (cities d !! c); done.
Qed.

Lemma full_clean_mismatch l d :
  city_mismatch l d = true ->
  fst (full_clean (World l d))
  = inl (ValidationError
           ((field_errors l d ++ [ReferentialMismatch])
            ++ constraint_errors
                 (fst <$> field_errors l d ++ [ReferentialMismatch]) l)).
Proof.
  intros Hm. rewrite full_clean_outcome, clean_outcome.
  rewrite (city_rules_exclusive l d Hm), Hm. unfold raised.
  destruct (_ ++ _) eqn:E; [|done].
  apply app_eq_nil in E as [E _]. by apply app_eq_nil in E as [_ E].
Qed.

Lemma full_clean_price_missing l d :
  city_unknown l d = false -> city_mismatch l d = false ->
  price_missing l = true ->
  fst (full_clean (World l d))
  = inl (ValidationError
           ((field_errors l d ++ [PriceRequired])
            ++ constraint_errors
                 (fst <$> field_errors l d ++ [PriceRequired]) l)).
Proof.
  intros Hu Hm Hp. rewrite full_clean_outcome, clean_outcome, Hu, Hm, Hp.
  unfold raised. destruct (_ ++ _) eqn:E; [|done].
  apply app_eq_nil in E as [E _]. by apply app_eq_nil in E as [_ E].
Qed.

(** C4, as stated, fails: with the city of another region and no price on
    an active listing two rules are violated, and the failure reports the
    city rule alone. *)
Lemma validation_stops_at_the_city_rule :
  let l := in_city2 (listing0 ACTIVE None) in
  violated_rules l db0 = [ReferentialMismatch; PriceRequired]
  /\ save 100 101 (World l db0)
     = (inl (ValidationError [ReferentialMismatch]), World l db0)
  /\ ~ fails_with PriceRequired (fst (save 100 101 (World l db0)))
  /\ ~ fails_with PriceRequired (fst (full_clean (World l db0))).
Proof.
  intros l.
  assert (Hs : save 100 101 (World l db0)
               = (inl (ValidationError [ReferentialMismatch]), World l db0))
    by (vm_compute; reflexivity).
  assert (Hf : fst (full_clean (World l db0))
               = inl (ValidationError [ReferentialMismatch]))
    by (vm_compute; reflexivity).
  split_and!; [by vm_compute | done | |].
  - rewrite Hs. intros (errors & [= <-] & Hin).
    apply list_elem_of_singleton in Hin. discriminate Hin.
  - rewrite Hf. intros (errors & [= <-] & Hin).
    apply list_elem_of_singleton in Hin. discriminate Hin.
Qed.

(** C4, amended. The validation reports the first violated rule of
    [clean] only: when the city does not belong to the region
    [ReferentialMismatch] is reported and [PriceRequired] is not, whether or
    not the price is missing; [PriceRequired] is reported for a missing
    price when the city check passes or is skipped. A negative price, a
    model constraint checked after [clean], is reported in the same failure
    as the city error when the price has no field error. *)
Theorem validation_reports_first_rule_of_clean l d :
  (city_mismatch l d = true ->
   fails_with ReferentialMismatch (fst (full_clean (World l d)))
   /\ ~ fails_with PriceRequired (fst (full_clean (World l d)))
   /\ (price_negative l = true -> price_errors (price_amount l) = [] ->
       fails_with NegativePrice (fst (full_clean (World l d)))))
  /\ (city_mismatch l d = false -> city_unknown l d = false ->
      price_missing l = true ->
      fails_with PriceRequired (fst (full_clean (World l d)))).
Proof.
  split.
  - intros Hm. pose proof (full_clean_mismatch l d Hm) as Hf. split_and!.
    + eexists. split; [exact Hf|]. rewrite !elem_of_app. left; right.
      by apply list_elem_of_singleton.
    + intros (errors & He & Hin).
      destruct (full_clean_reports _ _ _ _ He Hin) as [[c Hc]|[H|H]];
        try done.
      rewrite clean_outcome, (city_rules_exclusive l d Hm), Hm in H. done.
    + intros Hneg Hpe. eexists. split; [exact Hf|].
      apply elem_of_app. right. by apply negative_price_reported.
  - intros Hm Hu Hp. eexists.
    split; [exact (full_clean_price_missing l d Hu Hm Hp)|].
    rewrite !elem_of_app. left; right. by apply list_elem_of_singleton.
Qed.

Lemma validation_reports_first_rule_of_clean_witness :
  let l := in_city2 (listing0 ACTIVE (Some (-500))) in
  fails_with ReferentialMismatch (fst (full_clean (World l db0)))
  /\ ~ fails_with PriceRequired (fst (full_clean (World l db0)))
  /\ fails_with NegativePrice (fst (full_clean (World l db0)))
  /\ fails_with PriceRequired
       (fst (full_clean (World (listing0 SOLD None) db0))).
Proof.
  intros l.
  destruct (validation_reports_first_rule_of_clean l db0) as [H1 _].
  destruct (H1 eq_refl) as (Ha & Hb & Hc).
  destruct (validation_reports_first_rule_of_clean (listing0 SOLD None) db0)
    as [_ H2].
  split_and!; [exact Ha | exact Hb | exact (Hc eq_refl eq_refl) |].
  exact (H2 eq_refl eq_refl eq_refl).
Defined.






(** C7, as stated, fails: a write with the city of another region whose
    status change is not allowed is rejected with [InvalidTransition] alone,
    not with [ReferentialMismatch]. *)
Lemma city_rule_masked_by_transition_check :
  let d := db1 (row0 1 ARCHIVED (Some 15000)) in
  let l := in_city2 (row0 1 ACTIVE (Some 15000)) in
  city_mismatch l d = true
  /\ save 100 101 (World l d)
     = (inl (ValidationError [InvalidTransition]), World l d)
  /\ ~ fails_with ReferentialMismatch (fst (save 100 101 (World l d))).
Proof.
  intros d l.
  assert (Hs : save 100 101 (World l d)
               = (inl (ValidationError [InvalidTransition]), World l d))
    by (vm_compute; reflexivity).
  split_and!; [by vm_compute | done |].
  rewrite Hs. intros (errors & [= <-] & Hin).
  apply list_elem_of_singleton in Hin. discriminate Hin.
Qed.

Lemma persisted_city auto_now l d :
  city_id (persisted auto_now l d) = city_id l
  /\ region_id (persisted auto_now l d) = region_id l.
Proof.
  unfold persisted, auto_stamped.
  destruct (match pk l with Some _ => _ | None => _ end); done.
Qed.

Lemma clean_ok_city l d :
  field_errors l d = [] -> fst (clean (World l d)) = inr tt ->
  city_in_region l d = true.
Proof.
  intros Hfe. rewrite clean_outcome.
  unfold city_unknown, city_mismatch, city_in_region, city_region.
  unfold field_errors in Hfe.
  repeat (apply app_eq_nil in Hfe as [? Hfe]).
  destruct (city_id l) as [c|]; [|done].
  destruct (region_id l) as [r|]; [|done].
  cbn [mbind option_bind].
  destruct (cities d !! c) as [city|]; [|done].
  cbn [fmap option_fmap option_map].
  rewrite (bool_decide_eq_false_2 (Some city = None)) by done.
  by destruct (bool_decide (City.region_id city = r)).
Qed.

(** C7, amended. On every listing create or update, if the assigned city's
    parent region differs from the listing's region the write is rejected
    and changes nothing; the validation reports [ReferentialMismatch], and
    so does the write whenever its transition check passes (a write whose
    status change is not allowed is rejected by that check first). So
    [city.region == listing.region] holds after every successful write. *)
Theorem city_must_belong_to_region now auto_now l d :
  (city_mismatch l d = true ->
   fails_with ReferentialMismatch (fst (full_clean (World l d)))
   /\ (exists e, save now auto_now (World l d) = (inl e, World l d))
   /\ (forall previous_status,
         fst (check_transition (World l d)) = inr previous_status ->
         fails_with ReferentialMismatch
           (fst (save now auto_now (World l d)))))
  /\ (forall l' d',
        save now auto_now (World l d) = (inr tt, World l' d') ->
        city_in_region l' d' = true).
Proof.
  split.
  - intros Hm. pose proof (full_clean_mismatch l d Hm) as Hf.
    assert (Hrm : fails_with ReferentialMismatch
                    (fst (full_clean (World l d)))).
    { eexists. split; [exact Hf|]. rewrite !elem_of_app. left; right.
      by apply list_elem_of_singleton. }
    split_and!; [done | |].
    + exact (invalid_not_saved now auto_now l d _ Hf).
    + intros p Hct. by rewrite save_run, Hct, Hf, <- Hf.
  - intros l' d' (_ & Hfc & -> & ->)%save_ok_inv.
    apply full_clean_ok in Hfc as (Hfe & Hc & _).
    pose proof (clean_ok_city l d Hfe Hc) as Hcity.
    unfold city_in_region, city_region in *.
    destruct (persisted_city auto_now
                (stamped now (previous_status_of l d) l) d) as [-> ->].
    destruct (stamped_other now (previous_status_of l d) l)
      as (_ & _ & _ & -> & -> & _).
    exact Hcity.
Qed.

Lemma city_must_belong_to_region_witness :
  let d := db1 (row0 1 DRAFT None) in
  let l := in_city2 (row0 1 ACTIVE (Some 15000)) in
  fails_with ReferentialMismatch (fst (full_clean (World l d)))
  /\ (exists e, save 100 101 (World l d) = (inl e, World l d))
  /\ (forall previous_status,
         fst (check_transition (World l d)) = inr previous_status ->
         fails_with ReferentialMismatch (fst (save 100 101 (World l d)))).
Proof.
  intros d l.
  destruct (city_must_belong_to_region 100 101 l d) as [H _].
  exact (H eq_refl).
Defined.

(** ** The primary image *)

Lemma Image_save_run now i d :
  Image_save now (World i d)
  = if unique_primary_listing_image (images d) (image_key i d)
         (image_row now i d)
    then (inr tt,
          World (image_row now i d)
                (set_images (<[image_key i d := image_row now i d]>
                               (images d)) d))
    else (inl (IntegrityError "unique_primary_listing_image"),
          World (if bool_decide (is_Some (images d !! image_key i d)) then i
                 else image_set_created_at (Some now) i) d).
Proof.
  unfold Image_save, image_row, image_key. unfold_monad. cbv [self db].
  destruct (bool_decide (is_Some (images d !! _))); cbv [self db];
    by destruct (unique_primary_listing_image _ _ _).
Qed.

(** The check of the unique index is exactly what keeps the invariant. *)
Lemma unique_primary_iff t k row :
  at_most_one_primary t ->
  unique_primary_listing_image t k row = true
  <-> at_most_one_primary (<[k := row]> t).
Proof.
  intros Hinv. unfold unique_primary_listing_image.
  rewrite orb_true_iff, negb_true_iff, bool_decide_eq_true. split.
  - intros Hu k1 k2 i1 i2 H1 H2 Hl Hp1 Hp2.
    destruct (decide (k1 = k)) as [->|Hn1], (decide (k2 = k)) as [->|Hn2];
      [done| | |].
    + rewrite lookup_insert_eq in H1. injection H1 as <-.
      rewrite lookup_insert_ne in H2 by done.
      destruct Hu as [Hu|Hu]; [congruence|].
      destruct (Hu k2 i2 H2) as [?|[?|?]]; congruence.
    + rewrite lookup_insert_eq in H2. injection H2 as <-.
      rewrite lookup_insert_ne in H1 by done.
      destruct Hu as [Hu|Hu]; [congruence|].
      destruct (Hu k1 i1 H1) as [?|[?|?]]; congruence.
    + rewrite lookup_insert_ne in H1, H2 by done. eauto.
  - intros Hnew. destruct (ListingImage.is_primary row) eqn:Hp; [|auto].
    right. intros k' r Hr.
    destruct (decide (k' = k)) as [|Hne]; [auto|]. right.
    destruct (decide (ListingImage.listing_id r = ListingImage.listing_id row))
      as [Hl|]; [|auto].
    right. destruct (ListingImage.is_primary r) eqn:Hpr; [|done].
    exfalso. apply Hne.
    apply (Hnew k' k r row); try done.
    + by rewrite lookup_insert_ne.
    + by rewrite lookup_insert_eq.
Qed.


Lemma Image_save_invariant now i d i' d' :
  at_most_one_primary (images d) ->
  Image_save now (World i d) = (inr tt, World i' d') ->
  at_most_one_primary (images d').
Proof.
  intros Hinv. rewrite Image_save_run.
  destruct (unique_primary_listing_image _ _ _) eqn:Hu; [|done].
  intros [= _ <-]. cbn [images set_images].
  by apply unique_primary_iff.
Qed.

Lemma on_instance_Image_save now i d d' :
  on_instance i (Image_save now) d = (inr tt, d') ->
  exists i', Image_save now (World i d) = (inr tt, World i' d').
Proof.
  unfold on_instance. destruct (Image_save now (World i d)) as [r [i' d1]].
  cbn [db]. intros [= -> ->]. eauto.
Qed.

Lemma mutation_invariant d d' :
  at_most_one_primary (images d) -> mutation d d' ->
  at_most_one_primary (images d').
Proof.
  intros Hinv Hm. destruct Hm as
    [now auto_now l d l' d' Hs | now i d i' d' Hs | user data now d d' Hs
    | user k v now d d' Hs | k d d' Hs].
  - apply save_ok_inv in Hs as (_ & _ & _ & ->). exact Hinv.
  - eauto using Image_save_invariant.
  - unfold perform_create in Hs. rewrite bind_run in Hs. cbn in Hs.
    destruct (listings d !! _); [|done].
    rewrite bind_run in Hs. unfold raise_if in Hs.
    destruct (_ && _); [done|]. cbn in Hs.
    apply on_instance_Image_save in Hs as [i' Hs].
    eauto using Image_save_invariant.
  - unfold update_is_primary in Hs. rewrite bind_run in Hs. cbn in Hs.
    destruct (images d !! k); [|done].
    rewrite bind_run in Hs. unfold raise_if in Hs.
    destruct (negb _); [done|]. cbn in Hs.
    apply on_instance_Image_save in Hs as [i' Hs].
    eauto using Image_save_invariant.
  - injection Hs as <-. cbn [images set_images].
    intros k1 k2 i1 i2 H1%lookup_delete_Some H2%lookup_delete_Some.
    destruct H1 as [_ H1], H2 as [_ H2]. eauto.
Qed.

(** C5. At most one image of a listing is primary, in every persisted
    state. From a state with that invariant, a write of an image that would
    leave two images of one listing primary is rejected by the constraint
    [unique_primary_listing_image] and leaves the database as it was; every
    successful image write keeps the invariant, and so does any sequence of
    successful writes of the backend. *)
Theorem at_most_one_primary_image now i d :
  at_most_one_primary (images d) ->
  (~ at_most_one_primary (<[image_key i d := image_row now i d]> (images d))
   -> fst (Image_save now (World i d))
      = inl (IntegrityError "unique_primary_listing_image")
      /\ db (snd (Image_save now (World i d))) = d)
  /\ (forall i' d',
        Image_save now (World i d) = (inr tt, World i' d') ->
        at_most_one_primary (images d'))
  /\ (forall d', mutations d d' -> at_most_one_primary (images d')).
Proof.
  intros Hinv. split_and!.
  - intros Hbad. rewrite Image_save_run.
    destruct (unique_primary_listing_image _ _ _) eqn:Hu; [|done].
    by apply unique_primary_iff in Hu.
  - intros i' d'. by apply Image_save_invariant.
  - intros d'. induction 1; eauto using mutation_invariant.
Qed.

Lemma at_most_one_primary_empty : at_most_one_primary ∅.
Proof. intros k1 k2 i1 i2 H1. by rewrite lookup_empty in H1. Qed.

Lemma at_most_one_primary_db2 : at_most_one_primary (images db2).
Proof.
  apply unique_primary_iff; [|by vm_compute].
  apply unique_primary_iff; [|by vm_compute].
  apply at_most_one_primary_empty.
Qed.

Lemma at_most_one_primary_image_witness :
  let i := image0 2 true in
  (~ at_most_one_primary
       (<[image_key i db2 := image_row 100 i db2]> (images db2))
   -> fst (Image_save 100 (World i db2))
      = inl (IntegrityError "unique_primary_listing_image")
      /\ db (snd (Image_save 100 (World i db2))) = db2)
  /\ (forall i' d',
        Image_save 100 (World i db2) = (inr tt, World i' d') ->
        at_most_one_primary (images d'))
  /\ (forall d', mutations db2 d' -> at_most_one_primary (images d')).
Proof.
  intros i.
  exact (at_most_one_primary_image 100 i db2 at_most_one_primary_db2).
Defined.




